(** * pulsar-api: event validation, routing and dispatch handlers

    Shallow embedding of [internal/api/events.go]: the request and response
    records, [validateEventSchema], [resolveTopic], and the two gin handlers
    [PostEvent] and [PostBatch].

    What lies outside that file is kept abstract:
    - [json.Marshal] and the producer's [Send] are parameters of the
      handler section; every call of [Send] is recorded in a call log, so
      that "the broker is not invoked" is a statement about that log;
    - [c.ShouldBindJSON] is represented by its outcome ([BindResult]);
    - [middleware.GetCorrelationID] by the string it returns;
    - the zap logger is left out: it never feeds back into a response. *)

From stdpp Require Import gmap strings list fin_maps.

Open Scope string_scope.
Open Scope list_scope.
Local Set Warnings "-register-all".

(** ** Data model *)

(** A decoded JSON value, the dynamic content of [interface{}] after
    [encoding/json] decoding.  A number is carried by the 64 bits of its
    float64. *)
Inductive JSON : Type :=
  | JNull
  | JBool (b : bool)
  | JNumber (bits : Z)
  | JString (s : string)
  | JArray (items : list JSON)
  | JObject (fields : list (string * JSON)).

Record EventRequest : Type := mkEventRequest {
  EventType : string;
  SourceSystem : string;
  Payload : gmap string JSON
}.

(** Addresses of [EventRequest] variables; [None] is the nil pointer. *)
Definition ptr : Type := option nat.

Record EventResponse : Type := mkEventResponse {
  er_Status : string;
  er_Topic : string;
  er_Bytes : Z;
  er_DryRun : bool;
  er_CorrelationID : string;
  er_MessageID : string;
  er_Event : ptr
}.

Record BatchItemResult : Type := mkBatchItemResult {
  Index : Z;
  Status : string;
  Topic : string;
  Bytes : Z;
  MessageID : string;
  Error : string;
  CorrelationID : string;
  Event : ptr
}.

Record BatchResponse : Type := mkBatchResponse {
  br_Status : string;
  br_Count : Z;
  br_DryRun : bool;
  br_Results : list BatchItemResult
}.

(** [var eventTypeTopicMap = map[string]string{...}] *)
Definition eventTypeTopicMap : gmap string string :=
  <["SIGNALITIEK_ERROR" := "persistent://tenant/ns/signalitiek-errors"]>
  (<["WAGE_ERROR" := "persistent://tenant/ns/wage-errors"]> ∅).

(** The comma-ok test [_, ok := m[k]]. *)
Definition hasKey (m : gmap string JSON) (k : string) : bool :=
  match m !! k with
  | Some _ => true
  | None => false
  end.

(** [validateEventSchema]: [None] is Go's nil error, [Some msg] is
    [errors.New(msg)]. *)
Definition validateEventSchema (req : EventRequest) : option string :=
  if String.eqb (EventType req) "SIGNALITIEK_ERROR" then
    if negb (hasKey (Payload req) "errorCode") then
      Some "payload.errorCode is required for SIGNALITIEK_ERROR"
    else if negb (hasKey (Payload req) "employerId") then
      Some "payload.employerId is required for SIGNALITIEK_ERROR"
    else None
  else if String.eqb (EventType req) "WAGE_ERROR" then
    if negb (hasKey (Payload req) "dossierId") then
      Some "payload.dossierId is required for WAGE_ERROR"
    else None
  else None.

(** The handler.  [Logger] is left out; [Producer] is the connection state
    threaded through the handlers below. *)
Record EventHandler : Type := mkEventHandler {
  h_Topic : string;
  h_SchemaMap : gmap string string;
  h_DryRun : bool
}.

Definition NewEventHandler (topic : string) (dryRun : bool)
    (schemaMap : gmap string string) : EventHandler :=
  {| h_Topic := topic; h_DryRun := dryRun; h_SchemaMap := schemaMap |}.

Definition resolveTopic (h : EventHandler) (req : EventRequest) : string :=
  match eventTypeTopicMap !! EventType req with
  | Some t => t
  | None => h_Topic h
  end.

(** ** What the handlers exchange with gin *)

(** Outcome of [c.ShouldBindJSON(&v)]: an error with its text, or the decoded
    value. *)
Inductive BindResult (A : Type) : Type :=
  | BindErr (details : string)
  | BindOk (v : A).
Arguments BindErr {A} details.
Arguments BindOk {A} v.

(** A Go [(value, error)] pair: [Ok v] when the error is nil, [Err msg]
    with [msg = err.Error()] otherwise. *)
Inductive GoResult (A : Type) : Type :=
  | Ok (v : A)
  | Err (msg : string).
Arguments Ok {A} v.
Arguments Err {A} msg.

(** The value handed to [c.JSON]: a [gin.H] (all of whose values are strings
    here), an [EventResponse] or a [BatchResponse]. *)
Inductive Body : Type :=
  | BodyH (fields : gmap string string)
  | BodyEvent (r : EventResponse)
  | BodyBatch (r : BatchResponse).

(** Memory holding the [req] variables that [&req] points to. *)
Definition Store : Type := list EventRequest.

(** An HTTP response: status code, body, and the memory the body's [Event]
    pointers refer to at the moment [c.JSON] encodes it. *)
Record Response : Type := mkResponse {
  code : Z;
  body : Body;
  mem : Store
}.

Definition StatusOK : Z := 200.
Definition StatusCreated : Z := 201.
Definition StatusBadRequest : Z := 400.
Definition StatusInternalServerError : Z := 500.

(** What the JSON encoder emits for an [Event] field: the pointee. *)
Definition deref (m : Store) (p : ptr) : option EventRequest :=
  match p with
  | Some a => m !! a
  | None => None
  end.

(** The broker connection behind the producer, with the log of the
    payloads [Send] was called with. *)
Record World (Conn : Type) : Type := mkWorld {
  conn : Conn;
  calls : list (list Byte.byte)
}.
Arguments mkWorld {Conn} conn calls.
Arguments conn {Conn} _.
Arguments calls {Conn} _.

(** Scoping of the variables of [for i, req := range reqs].  Go 1.22 and
    later (selected by the [go] line of go.mod, which is not among the
    sources) give every iteration its own [req]; earlier versions declare
    one [req] for the whole loop and assign to it at each iteration. *)
Inductive LoopVarScope : Type :=
  | PerIteration
  | PerLoop.

Definition zeroEventRequest : EventRequest :=
  {| EventType := ""; SourceSystem := ""; Payload := ∅ |}.

(** Memory on loop entry: under [PerLoop] the single [req] already exists. *)
Definition loopEntry (scope : LoopVarScope) : Store :=
  match scope with
  | PerIteration => []
  | PerLoop => [zeroEventRequest]
  end.

(** [req := reqs[i]] at the head of an iteration: the address of [req] and
    the memory after the assignment. *)
Definition bindLoopVar (scope : LoopVarScope) (req : EventRequest) (m : Store)
    : nat * Store :=
  match scope with
  | PerIteration => (length m, m ++ [req])
  | PerLoop => (0%nat, <[0%nat := req]> m)
  end.

Record LoopState (Conn : Type) : Type := mkLoopState {
  results : list BatchItemResult;
  vars : Store;
  world : World Conn
}.
Arguments mkLoopState {Conn} results vars world.
Arguments results {Conn} _.
Arguments vars {Conn} _.
Arguments world {Conn} _.

(** What an entry says about the dispatch of its event: everything but the
    position in the batch and the echoed event. *)
Definition outcomeOf (r : BatchItemResult)
    : string * string * Z * string * string * string :=
  (Status r, Topic r, Bytes r, MessageID r, Error r, CorrelationID r).

(** ** The handlers *)

Section Handlers.
Context {Conn : Type}.
(** [h.Producer.Send(payloadBytes)]: the message id or the error, and the
    connection afterwards. *)
Variable Send : Conn → list Byte.byte → GoResult string * Conn.
(** [json.Marshal(req)]. *)
Variable Marshal : EventRequest → GoResult (list Byte.byte).
Variable scope : LoopVarScope.

(** A call of [Send], logged. *)
Definition callSend (w : World Conn) (msg : list Byte.byte)
    : GoResult string * World Conn :=
  let '(r, c) := Send (conn w) msg in
  (r, {| conn := c; calls := calls w ++ [msg] |}).

Definition errorH (error corrID : string) : gmap string string :=
  <["status" := "error"]> (<["error" := error]>
    (<["correlationId" := corrID]> ∅)).

Definition errorDetailsH (error details corrID : string)
    : gmap string string :=
  <["details" := details]> (errorH error corrID).

(** [PostEvent]; the local [req] lives at address 0. *)
Definition PostEvent (h : EventHandler) (corrID : string)
    (bound : BindResult EventRequest) (w : World Conn)
    : Response * World Conn :=
  match bound with
  | BindErr details =>
      ({| code := StatusBadRequest;
          body := BodyH (errorDetailsH "invalid request body" details corrID);
          mem := [zeroEventRequest] |}, w)
  | BindOk req =>
      let m : Store := [req] in
      match validateEventSchema req with
      | Some err =>
          ({| code := StatusBadRequest;
              body := BodyH (errorDetailsH "schema validation failed" err corrID);
              mem := m |}, w)
      | None =>
          match Marshal req with
          | Err _ =>
              ({| code := StatusInternalServerError;
                  body := BodyH (errorH "internal serialization error" corrID);
                  mem := m |}, w)
          | Ok payloadBytes =>
              let topic := resolveTopic h req in
              let bytes := Z.of_nat (length payloadBytes) in
              if h_DryRun h then
                ({| code := StatusOK;
                    body := BodyEvent
                      {| er_Status := "dry-run"; er_Topic := topic;
                         er_Bytes := bytes; er_DryRun := h_DryRun h;
                         er_CorrelationID := corrID; er_MessageID := "";
                         er_Event := Some 0%nat |};
                    mem := m |}, w)
              else
                match callSend w payloadBytes with
                | (Err e, w') =>
                    ({| code := StatusInternalServerError;
                        body := BodyH
                          (errorDetailsH "failed sending to Pulsar" e corrID);
                        mem := m |}, w')
                | (Ok msgID, w') =>
                    ({| code := StatusCreated;
                        body := BodyEvent
                          {| er_Status := "sent"; er_Topic := topic;
                             er_Bytes := bytes; er_DryRun := h_DryRun h;
                             er_CorrelationID := corrID; er_MessageID := msgID;
                             er_Event := Some 0%nat |};
                        mem := m |}, w')
                end
          end
      end
  end.

(** The part of one iteration of the loop of [PostBatch] after
    [r := BatchItemResult{Index: i, CorrelationID: itemCorr, Event: &req}]:
    the entry appended to [results], and the broker afterwards. *)
Definition dispatchItem (h : EventHandler) (corrID : string) (i : nat)
    (p : ptr) (req : EventRequest) (w : World Conn)
    : BatchItemResult * World Conn :=
  match validateEventSchema req with
  | Some err =>
      ({| Index := Z.of_nat i; Status := "error"; Topic := ""; Bytes := 0;
          MessageID := "";
          Error := "schema validation failed: " +:+ err;
          CorrelationID := corrID; Event := p |}, w)
  | None =>
      match Marshal req with
      | Err e =>
          ({| Index := Z.of_nat i; Status := "error"; Topic := ""; Bytes := 0;
              MessageID := ""; Error := "marshal error: " +:+ e;
              CorrelationID := corrID; Event := p |}, w)
      | Ok payloadBytes =>
          let topic := resolveTopic h req in
          let bytes := Z.of_nat (length payloadBytes) in
          if h_DryRun h then
            ({| Index := Z.of_nat i; Status := "dry-run"; Topic := topic;
                Bytes := bytes; MessageID := ""; Error := "";
                CorrelationID := corrID; Event := p |}, w)
          else
            match callSend w payloadBytes with
            | (Err e, w') =>
                ({| Index := Z.of_nat i; Status := "error"; Topic := topic;
                    Bytes := bytes; MessageID := "";
                    Error := "send error: " +:+ e;
                    CorrelationID := corrID; Event := p |}, w')
            | (Ok msgID, w') =>
                ({| Index := Z.of_nat i; Status := "sent"; Topic := topic;
                    Bytes := bytes; MessageID := msgID; Error := "";
                    CorrelationID := corrID; Event := p |}, w')
            end
      end
  end.

(** One iteration: bind [req], dispatch it, append the entry. *)
Definition batchIter (h : EventHandler) (corrID : string) (i : nat)
    (req : EventRequest) (st : LoopState Conn) : LoopState Conn :=
  let '(a, m) := bindLoopVar scope req (vars st) in
  let '(r, w) := dispatchItem h corrID i (Some a) req (world st) in
  {| results := results st ++ [r]; vars := m; world := w |}.

(** [for i, req := range reqs { ... }], from index [i] on. *)
Fixpoint batchLoop (h : EventHandler) (corrID : string) (i : nat)
    (reqs : list EventRequest) (st : LoopState Conn) : LoopState Conn :=
  match reqs with
  | [] => st
  | req :: rest => batchLoop h corrID (S i) rest (batchIter h corrID i req st)
  end.

(** The loop started by [PostBatch] on broker [w]. *)
Definition runBatch (h : EventHandler) (corrID : string)
    (reqs : list EventRequest) (w : World Conn) : LoopState Conn :=
  batchLoop h corrID 0 reqs
    {| results := []; vars := loopEntry scope; world := w |}.

Definition PostBatch (h : EventHandler) (corrID : string)
    (bound : BindResult (list EventRequest)) (w : World Conn)
    : Response * World Conn :=
  match bound with
  | BindErr details =>
      ({| code := StatusBadRequest;
          body := BodyH (errorDetailsH "invalid batch body" details corrID);
          mem := [] |}, w)
  | BindOk reqs =>
      let st := runBatch h corrID reqs w in
      let status := if h_DryRun h then "dry-run" else "sent" in
      ({| code := StatusOK;
          body := BodyBatch
            {| br_Status := status;
               br_Count := Z.of_nat (length (results st));
               br_DryRun := h_DryRun h;
               br_Results := results st |};
          mem := vars st |}, world st)
  end.

End Handlers.

(** ** Stand-ins for the external collaborators

    Fakes for the serializer and the broker, used to run the handlers on
    concrete requests. *)

(** A serializer that always succeeds: the bytes of the two string fields,
    one separator byte, and one byte per payload key. *)
Definition fakeMarshal (req : EventRequest) : GoResult (list Byte.byte) :=
  Ok (String.list_byte_of_string (EventType req) ++ [Byte.x7c]
      ++ String.list_byte_of_string (SourceSystem req)
      ++ replicate (size (Payload req)) Byte.x2e).

(** A serializer that rejects events from source system ["NaN"]. *)
Definition pickyMarshal (req : EventRequest) : GoResult (list Byte.byte) :=
  if String.eqb (SourceSystem req) "NaN"
  then Err "json: unsupported value: NaN"
  else fakeMarshal req.

(** A broker that accepts everything; its state counts the messages. *)
Definition okSend (n : nat) (msg : list Byte.byte) : GoResult string * nat :=
  (Ok "1:0:0", S n).

(** A broker that refuses everything. *)
Definition downSend (n : nat) (msg : list Byte.byte) : GoResult string * nat :=
  (Err "connection closed", S n).

(** A broker that refuses the first message it sees and accepts the rest. *)
Definition flakySend (n : nat) (msg : list Byte.byte) : GoResult string * nat :=
  match n with
  | O => (Err "connection closed", 1%nat)
  | S _ => (Ok "1:0:0", S n)
  end.

Definition world0 : World nat := {| conn := 0%nat; calls := [] |}.

Definition dryHandler : EventHandler :=
  NewEventHandler "persistent://tenant/ns/default-topic" true ∅.
Definition liveHandler : EventHandler :=
  NewEventHandler "persistent://tenant/ns/default-topic" false ∅.

Definition sigEvent : EventRequest :=
  {| EventType := "SIGNALITIEK_ERROR"; SourceSystem := "EverESSt";
     Payload := <["errorCode" := JString "1"]>
                (<["employerId" := JString "2"]> ∅) |}.
Definition wageEvent : EventRequest :=
  {| EventType := "WAGE_ERROR"; SourceSystem := "EverESSt";
     Payload := <["dossierId" := JString "ABC-123"]> ∅ |}.
Definition badWageEvent : EventRequest :=
  {| EventType := "WAGE_ERROR"; SourceSystem := "EverESSt"; Payload := ∅ |}.
Definition otherEvent : EventRequest :=
  {| EventType := "AUDIT"; SourceSystem := "EverESSt"; Payload := ∅ |}.

(** The serialization of [sigEvent] by [fakeMarshal]. *)
Definition sigBytes : list Byte.byte :=
  Eval vm_compute in
    match fakeMarshal sigEvent with
    | Ok payloadBytes => payloadBytes
    | Err _ => []
    end.


(** ** The correlation-id middleware ([internal/middleware])

    Of gin's context only what the middleware and the handlers touch is kept:
    the request headers, the key/value store [c.Keys], and the response
    headers. *)

Module middleware.

(** A value stored in [c.Keys] (Go's [any]); the assertion [v.(string)]
    succeeds on [AnyString] only. *)
Inductive Any : Type :=
  | AnyString (s : string)
  | AnyInt (n : Z)
  | AnyBool (b : bool).

(** *** [net/http]'s header maps

    An [http.Header] maps a header name in canonical form to its values.
    [Get], [Set] and [Add] canonicalise the name they are given, so the
    spelling of a name does not matter. *)

Definition isLower (c : Ascii.ascii) : bool :=
  (97 <=? Ascii.nat_of_ascii c)%nat && (Ascii.nat_of_ascii c <=? 122)%nat.
Definition isUpper (c : Ascii.ascii) : bool :=
  (65 <=? Ascii.nat_of_ascii c)%nat && (Ascii.nat_of_ascii c <=? 90)%nat.
Definition isDigit (c : Ascii.ascii) : bool :=
  (48 <=? Ascii.nat_of_ascii c)%nat && (Ascii.nat_of_ascii c <=? 57)%nat.

(** The bytes of an HTTP token: letters, digits and a few signs. *)
Definition validHeaderFieldByte (c : Ascii.ascii) : bool :=
  isLower c || isUpper c || isDigit c
  || existsb (Ascii.eqb c) (String.list_ascii_of_string "!#$%&'*+-.^_`|~").

Fixpoint allValid (s : string) : bool :=
  match s with
  | EmptyString => true
  | String c rest => validHeaderFieldByte c && allValid rest
  end.

(** Upper case for the first letter and for a letter after a hyphen, lower
    case for the others. *)
Fixpoint canonicalCase (upper : bool) (s : string) : string :=
  match s with
  | EmptyString => EmptyString
  | String c rest =>
      let c' :=
        if upper && isLower c then Ascii.ascii_of_nat (Ascii.nat_of_ascii c - 32)
        else if negb upper && isUpper c then Ascii.ascii_of_nat (Ascii.nat_of_ascii c + 32)
        else c in
      String c' (canonicalCase (Ascii.eqb c' (Ascii.ascii_of_nat 45)) rest)
  end.

(** [textproto.CanonicalMIMEHeaderKey]: a name with a byte that is not a
    token byte is returned as it is. *)
Definition CanonicalMIMEHeaderKey (s : string) : string :=
  if allValid s then canonicalCase true s else s.

(** [Header.Get]: the first value of the header, the empty string when
    there is none. *)
Definition HeaderGet (h : gmap string (list string)) (key : string) : string :=
  match h !! CanonicalMIMEHeaderKey key with
  | Some (v :: _) => v
  | _ => ""
  end.

(** [Header.Set]: the header gets this one value. *)
Definition HeaderSet (h : gmap string (list string)) (key value : string)
    : gmap string (list string) :=
  <[CanonicalMIMEHeaderKey key := [value]]> h.

(** [Header.Add]: one more value for the header; this is how the headers
    of an incoming request are collected. *)
Definition HeaderAdd (h : gmap string (list string)) (key value : string)
    : gmap string (list string) :=
  <[CanonicalMIMEHeaderKey key :=
      default [] (h !! CanonicalMIMEHeaderKey key) ++ [value]]> h.

(** *** The context and the middleware *)

Record GinContext : Type := mkGinContext {
  RequestHeader : gmap string (list string);
  Keys : gmap string Any;
  WriterHeader : gmap string (list string)
}.

Definition CorrelationIDHeader : string := "X-Correlation-ID".
Definition correlationKey : string := "correlationId".

(** [c.GetHeader(key)] is [c.Request.Header.Get(key)]. *)
Definition GetHeader (c : GinContext) (key : string) : string :=
  HeaderGet (RequestHeader c) key.

(** The handler returned by [CorrelationID()], up to [c.Next()];
    [newString] is what [uuid.NewString()] returns when it is called. *)
Definition CorrelationID (newString : string) (c : GinContext) : GinContext :=
  let corrID := GetHeader c CorrelationIDHeader in
  let corrID := if String.eqb corrID "" then newString else corrID in
  {| RequestHeader := RequestHeader c;
     Keys := <[correlationKey := AnyString corrID]> (Keys c);
     WriterHeader := HeaderSet (WriterHeader c) CorrelationIDHeader corrID |}.

Definition GetCorrelationID (c : GinContext) : string :=
  match Keys c !! correlationKey with
  | Some (AnyString s) => s
  | _ => ""
  end.

End middleware.

(** The routes of [main]: the middleware, then the handler, which reads the
    correlation id back from the context. *)
Definition serveEvent {Conn : Type}
    (Send : Conn → list Byte.byte → GoResult string * Conn)
    (Marshal : EventRequest → GoResult (list Byte.byte))
    (newString : string) (h : EventHandler) (c : middleware.GinContext)
    (bound : BindResult EventRequest) (w : World Conn)
    : middleware.GinContext * (Response * World Conn) :=
  let c' := middleware.CorrelationID newString c in
  (c', PostEvent Send Marshal h (middleware.GetCorrelationID c') bound w).

Definition serveBatch {Conn : Type}
    (Send : Conn → list Byte.byte → GoResult string * Conn)
    (Marshal : EventRequest → GoResult (list Byte.byte))
    (scope : LoopVarScope)
    (newString : string) (h : EventHandler) (c : middleware.GinContext)
    (bound : BindResult (list EventRequest)) (w : World Conn)
    : middleware.GinContext * (Response * World Conn) :=
  let c' := middleware.CorrelationID newString c in
  (c', PostBatch Send Marshal scope h (middleware.GetCorrelationID c') bound w).

(** ** Start-up ([cmd/api], [main])

    The configuration as viper hands it over, and what [main] has built
    when it reaches [r.Run]: the handler, the producer it holds (nil in
    dry-run mode) and the port; or the fatal log line it stopped with. *)
Record Config : Type := mkConfig {
  pulsar_url : string;
  pulsar_defaultTopic : string;
  api_dryRun : bool;
  api_port : Z;
  schemas : gmap string string
}.

Inductive Startup (Conn : Type) : Type :=
  | Fatal (msg : string)
  | Serving (handler : EventHandler) (producer : option Conn) (port : Z).
Arguments Fatal {Conn} msg.
Arguments Serving {Conn} handler producer port.

(** [main] up to [r.Run(addr)].  [loaded] is the outcome of
    [v.ReadInConfig()] with the values read; [NewProducer] yields the
    producer or the line it logs with [log.Fatalf]. *)
Definition main {Conn : Type}
    (NewProducer : string → string → GoResult Conn)
    (loaded : GoResult Config) : Startup Conn :=
  match loaded with
  | Err _ => Fatal "Failed to load config.yaml"
  | Ok cfg =>
      let brokerURL := pulsar_url cfg in
      let topic := pulsar_defaultTopic cfg in
      let dryRun := api_dryRun cfg in
      if String.eqb brokerURL "" || String.eqb topic "" then
        Fatal "PULSAR_URL and PULSAR_TOPIC must be set"
      else if negb dryRun then
        match NewProducer brokerURL topic with
        | Err msg => Fatal msg
        | Ok producer =>
            Serving (NewEventHandler topic dryRun (schemas cfg)) (Some producer)
                    (api_port cfg)
        end
      else
        Serving (NewEventHandler topic dryRun (schemas cfg)) None (api_port cfg)
  end.

(** ** What reaches the broker *)

(** The serialization the handler hands to [Send] for an event: none in
    dry-run mode, none for an event that fails validation or serialization. *)
Definition payloadToSend (Marshal : EventRequest → GoResult (list Byte.byte))
    (h : EventHandler) (req : EventRequest) : option (list Byte.byte) :=
  if h_DryRun h then None
  else match validateEventSchema req with
       | Some _ => None
       | None => match Marshal req with
                 | Ok payloadBytes => Some payloadBytes
                 | Err _ => None
                 end
       end.

(** The correlation ids a response body shows: the [correlationId] field of
    a [gin.H] or of an [EventResponse], and the one of every entry of a
    [BatchResponse]. *)
Definition bodyCorrelationIDs (b : Body) : list string :=
  match b with
  | BodyH fields => option_list (fields !! "correlationId")
  | BodyEvent r => [er_CorrelationID r]
  | BodyBatch r => map CorrelationID (br_Results r)
  end.

(** ** The echoed event on the wire *)



(** Requests and configurations to run the above on. *)
Definition nullKeysEvent : EventRequest :=
  {| EventType := "SIGNALITIEK_ERROR"; SourceSystem := "EverESSt";
     Payload := <["errorCode" := JNull]> (<["employerId" := JNull]> ∅) |}.

Definition sigEventMore : EventRequest :=
  {| EventType := "SIGNALITIEK_ERROR"; SourceSystem := "EverESSt";
     Payload := <["message" := JString "Test event"]> (Payload sigEvent) |}.

Definition bareContext : middleware.GinContext :=
  {| middleware.RequestHeader := ∅; middleware.Keys := ∅;
     middleware.WriterHeader := ∅ |}.

(** A request whose correlation header is spelled in lower case. *)
Definition taggedContext : middleware.GinContext :=
  {| middleware.RequestHeader :=
       middleware.HeaderAdd ∅ "x-correlation-id" "req-42";
     middleware.Keys := ∅; middleware.WriterHeader := ∅ |}.

Definition dryConfig : Config :=
  {| pulsar_url := "pulsar://localhost:6650";
     pulsar_defaultTopic := "persistent://tenant/ns/default-topic";
     api_dryRun := true; api_port := 8080; schemas := ∅ |}.

Definition liveConfig : Config :=
  {| pulsar_url := "pulsar://localhost:6650";
     pulsar_defaultTopic := "persistent://tenant/ns/default-topic";
     api_dryRun := false; api_port := 8080; schemas := ∅ |}.

(** A broker that can be reached, and one that cannot. *)
Definition reachable (url topic : string) : GoResult nat := Ok 0%nat.
Definition unreachable (url topic : string) : GoResult nat :=
  Err "failed to create pulsar client: connection refused".

(** ** Schema validation and topic resolution *)

Lemma hasKey_false (m : gmap string JSON) (k : string) :
  hasKey m k = false ↔ m !! k = None.
Proof. unfold hasKey. destruct (m !! k); split; congruence. Qed.

Lemma hasKey_true (m : gmap string JSON) (k : string) :
  hasKey m k = true ↔ is_Some (m !! k).
Proof.
  unfold hasKey. destruct (m !! k) eqn:E; split; intros H; eauto.
  - discriminate.
  - by destruct H.
Qed.

(** C4.  [validateEventSchema] decides by event type.  For
    SIGNALITIEK_ERROR it fails exactly when the payload lacks [errorCode] or
    [employerId], and the message names a key that is missing; for WAGE_ERROR
    it fails exactly when the payload lacks [dossierId], naming it; for every
    other type, known or not, it succeeds. *)
Theorem validateEventSchema_rules (req : EventRequest) :
  (EventType req = "SIGNALITIEK_ERROR" →
     (is_Some (validateEventSchema req) ↔
        Payload req !! "errorCode" = None ∨ Payload req !! "employerId" = None)
     ∧ ∀ msg, validateEventSchema req = Some msg →
         ∃ k, (k = "errorCode" ∨ k = "employerId") ∧ Payload req !! k = None
              ∧ msg = "payload." +:+ k +:+ " is required for SIGNALITIEK_ERROR")
  ∧ (EventType req = "WAGE_ERROR" →
     (is_Some (validateEventSchema req) ↔ Payload req !! "dossierId" = None)
     ∧ ∀ msg, validateEventSchema req = Some msg →
         msg = "payload." +:+ "dossierId" +:+ " is required for WAGE_ERROR")
  ∧ (EventType req ≠ "SIGNALITIEK_ERROR" → EventType req ≠ "WAGE_ERROR" →
     validateEventSchema req = None).
Proof.
  unfold validateEventSchema. split; [|split].
  - intros ->. simpl.
    destruct (hasKey (Payload req) "errorCode") eqn:E1;
      destruct (hasKey (Payload req) "employerId") eqn:E2; simpl;
      rewrite ?hasKey_false, ?hasKey_true in *.
    + split.
      * split; [intros [? ?]; discriminate|].
        destruct E1, E2. intros [?|?]; congruence.
      * discriminate.
    + split; [split; eauto|].
      intros msg [= <-]. exists "employerId". auto.
    + split; [split; eauto|].
      intros msg [= <-]. exists "errorCode". auto.
    + split; [split; eauto|].
      intros msg [= <-]. exists "errorCode". auto.
  - intros ->. simpl.
    destruct (hasKey (Payload req) "dossierId") eqn:E; simpl;
      rewrite ?hasKey_false, ?hasKey_true in *.
    + split; [|discriminate].
      split; [intros [? ?]; discriminate|]. destruct E. congruence.
    + split; [split; eauto|]. by intros msg [= <-].
  - intros H1 H2.
    apply String.eqb_neq in H1, H2. by rewrite H1, H2.
Qed.

(** C6.  [resolveTopic] is a total function: a type present in
    [eventTypeTopicMap] gets exactly the mapped topic, any other type the
    handler's default topic. *)
Theorem resolveTopic_lookup (h : EventHandler) (req : EventRequest) :
  (∀ t, eventTypeTopicMap !! EventType req = Some t → resolveTopic h req = t)
  ∧ (eventTypeTopicMap !! EventType req = None →
     resolveTopic h req = h_Topic h).
Proof.
  unfold resolveTopic. split.
  - by intros t ->.
  - by intros ->.
Qed.

(** The content of the routing table. *)
Lemma eventTypeTopicMap_content (ty : string) :
  eventTypeTopicMap !! ty =
    if String.eqb ty "SIGNALITIEK_ERROR"
    then Some "persistent://tenant/ns/signalitiek-errors"
    else if String.eqb ty "WAGE_ERROR"
    then Some "persistent://tenant/ns/wage-errors"
    else None.
Proof.
  unfold eventTypeTopicMap.
  destruct (String.eqb ty "SIGNALITIEK_ERROR") eqn:E1.
  { apply String.eqb_eq in E1 as ->. by rewrite lookup_insert_eq. }
  apply String.eqb_neq in E1. rewrite lookup_insert_ne by done.
  destruct (String.eqb ty "WAGE_ERROR") eqn:E2.
  { apply String.eqb_eq in E2 as ->. by rewrite lookup_insert_eq. }
  apply String.eqb_neq in E2. by rewrite lookup_insert_ne.
Qed.

(** ** Properties of the handlers *)

Section HandlerProperties.
Context {Conn : Type}.
Variable Send : Conn → list Byte.byte → GoResult string * Conn.
Variable Marshal : EventRequest → GoResult (list Byte.byte).
Variable scope : LoopVarScope.

Lemma dispatchItem_Index h corrID i p req w :
  Index (dispatchItem Send Marshal h corrID i p req w).1 = Z.of_nat i.
Proof.
  unfold dispatchItem.
  repeat (case_match; simpl; try done).
Qed.

Lemma dispatchItem_Event h corrID i p req w :
  Event (dispatchItem Send Marshal h corrID i p req w).1 = p.
Proof.
  unfold dispatchItem.
  repeat (case_match; simpl; try done).
Qed.

(** Position and pointer do not influence the dispatch. *)
Lemma dispatchItem_outcome h corrID i i' p p' req w :
  outcomeOf (dispatchItem Send Marshal h corrID i p req w).1
    = outcomeOf (dispatchItem Send Marshal h corrID i' p' req w).1
  ∧ (dispatchItem Send Marshal h corrID i p req w).2
    = (dispatchItem Send Marshal h corrID i' p' req w).2.
Proof.
  unfold dispatchItem.
  repeat (case_match; simpl; try done).
Qed.

Lemma batchIter_results h corrID i req st :
  results (batchIter Send Marshal scope h corrID i req st) =
    results st ++
    [(dispatchItem Send Marshal h corrID i
        (Some (bindLoopVar scope req (vars st)).1) req (world st)).1].
Proof.
  unfold batchIter.
  destruct (bindLoopVar scope req (vars st)) as [a m]; simpl.
  by destruct (dispatchItem Send Marshal h corrID i (Some a) req (world st)).
Qed.

Lemma batchIter_world h corrID i p req st :
  world (batchIter Send Marshal scope h corrID i req st) =
    (dispatchItem Send Marshal h corrID i p req (world st)).2.
Proof.
  unfold batchIter.
  destruct (bindLoopVar scope req (vars st)) as [a m]; simpl.
  rewrite (proj2 (dispatchItem_outcome h corrID i i p (Some a) req (world st))).
  by destruct (dispatchItem Send Marshal h corrID i (Some a) req (world st)).
Qed.

Lemma batchIter_vars h corrID i req st :
  vars (batchIter Send Marshal scope h corrID i req st) = (bindLoopVar scope req (vars st)).2.
Proof.
  unfold batchIter.
  destruct (bindLoopVar scope req (vars st)) as [a m]; simpl.
  by destruct (dispatchItem Send Marshal h corrID i (Some a) req (world st)).
Qed.

Lemma batchLoop_app h corrID i l1 l2 st :
  batchLoop Send Marshal scope h corrID i (l1 ++ l2) st =
    batchLoop Send Marshal scope h corrID (i + length l1) l2 (batchLoop Send Marshal scope h corrID i l1 st).
Proof.
  revert i st. induction l1 as [|x l1 IH]; intros i st; simpl.
  - by rewrite Nat.add_0_r.
  - rewrite IH. f_equal. lia.
Qed.

Lemma batchLoop_length h corrID i reqs st :
  length (results (batchLoop Send Marshal scope h corrID i reqs st)) =
    (length (results st) + length reqs)%nat.
Proof.
  revert i st. induction reqs as [|x l IH]; intros i st; simpl; [lia|].
  rewrite IH, batchIter_results, length_app. simpl. lia.
Qed.

(** Entries already appended are never touched again. *)
Lemma batchLoop_keeps h corrID i reqs st :
  take (length (results st)) (results (batchLoop Send Marshal scope h corrID i reqs st))
    = results st.
Proof.
  revert i st. induction reqs as [|x l IH]; intros i st; simpl.
  - by rewrite firstn_all.
  - specialize (IH (S i) (batchIter Send Marshal scope h corrID i x st)).
    rewrite batchIter_results in IH at 1 2.
    apply (f_equal (take (length (results st)))) in IH.
    rewrite take_take, length_app, take_app_length in IH.
    by rewrite Nat.min_l in IH by lia.
Qed.

(** The entry of the [j]-th remaining event is its own dispatch, at its
    own index, against the broker as the events before it left it. *)
Lemma batchLoop_entry h corrID i reqs st j req :
  reqs !! j = Some req →
  let before := batchLoop Send Marshal scope h corrID i (take j reqs) st in
  results (batchLoop Send Marshal scope h corrID i reqs st) !! (length (results st) + j)%nat =
    Some (dispatchItem Send Marshal h corrID (i + j)
            (Some (bindLoopVar scope req (vars before)).1) req
            (world before)).1.
Proof.
  intros Hj before.
  rewrite <- (take_drop_middle reqs j req Hj) at 1.
  rewrite batchLoop_app. simpl.
  assert (Hlen : length (take j reqs) = j).
  { apply length_take_le. apply lookup_lt_Some in Hj. lia. }
  rewrite Hlen. fold before.
  set (st1 := batchIter Send Marshal scope h corrID (i + j) req before).
  pose proof (batchLoop_keeps h corrID (S (i + j)) (drop (S j) reqs) st1) as Hk.
  assert (Hl1 : length (results st1) = S (length (results st) + j)).
  { unfold st1. rewrite batchIter_results, length_app. simpl.
    unfold before. rewrite batchLoop_length, Hlen. lia. }
  rewrite <- (lookup_take_lt _ (length (results st1))) by lia.
  rewrite Hk. unfold st1. rewrite batchIter_results.
  rewrite lookup_app_r; unfold before; rewrite batchLoop_length, Hlen; [|lia].
  by replace (length (results st) + j - (length (results st) + j))%nat
    with 0%nat by lia.
Qed.

Lemma batchLoop_split h corrID i reqs st :
  results (batchLoop Send Marshal scope h corrID i reqs st) =
    results st ++
    drop (length (results st))
         (results (batchLoop Send Marshal scope h corrID i reqs st)).
Proof.
  rewrite <- (batchLoop_keeps h corrID i reqs st) at 1.
  by rewrite take_drop.
Qed.

Lemma batchLoop_cons_drop h corrID i x reqs st :
  let st1 := batchIter Send Marshal scope h corrID i x st in
  drop (length (results st))
       (results (batchLoop Send Marshal scope h corrID i (x :: reqs) st)) =
    (dispatchItem Send Marshal h corrID i
       (Some (bindLoopVar scope x (vars st)).1) x (world st)).1
    :: drop (length (results st1))
            (results (batchLoop Send Marshal scope h corrID (S i) reqs st1)).
Proof.
  intros st1. simpl. fold st1.
  rewrite (batchLoop_split h corrID (S i) reqs st1) at 1.
  unfold st1 at 1. rewrite batchIter_results, <- app_assoc.
  by rewrite drop_app_length.
Qed.

(** The outcomes of a run of the loop, and the broker it leaves, depend on
    the loop state only through the broker. *)
Lemma batchLoop_outcomes h corrID i i' reqs st st' :
  world st = world st' →
  map outcomeOf
      (drop (length (results st))
            (results (batchLoop Send Marshal scope h corrID i reqs st)))
  = map outcomeOf
      (drop (length (results st'))
            (results (batchLoop Send Marshal scope h corrID i' reqs st')))
  ∧ world (batchLoop Send Marshal scope h corrID i reqs st)
    = world (batchLoop Send Marshal scope h corrID i' reqs st').
Proof.
  revert i i' st st'. induction reqs as [|x l IH]; intros i i' st st' Hw.
  - simpl. by rewrite !drop_all.
  - rewrite !batchLoop_cons_drop. simpl.
    set (p := Some (bindLoopVar scope x (vars st)).1).
    set (p' := Some (bindLoopVar scope x (vars st')).1).
    destruct (dispatchItem_outcome h corrID i i' p p' x (world st))
      as [Ho Hw'].
    assert (Hw1 : world (batchIter Send Marshal scope h corrID i x st) =
                  world (batchIter Send Marshal scope h corrID i' x st')).
    { rewrite (batchIter_world h corrID i p), (batchIter_world h corrID i' p').
      by rewrite <- Hw. }
    destruct (IH (S i) (S i') _ _ Hw1) as [IH1 IH2].
    split; [|done].
    f_equal; [|done]. by rewrite <- Hw.
Qed.



(** C2.  A decoded batch of N events gets exactly N entries and
    [count] = N; the entry at position [i] is the dispatch of the [i]-th
    submitted event and carries index [i]. *)
Theorem PostBatch_entry_per_event h corrID reqs w :
  ∃ b, body (PostBatch Send Marshal scope h corrID (BindOk reqs) w).1
         = BodyBatch b
    ∧ length (br_Results b) = length reqs
    ∧ br_Count b = Z.of_nat (length reqs)
    ∧ (∀ i r, br_Results b !! i = Some r → Index r = Z.of_nat i)
    ∧ (∀ i req, reqs !! i = Some req →
         ∃ p w', br_Results b !! i =
           Some (dispatchItem Send Marshal h corrID i p req w').1).
Proof.
  simpl. eexists. split; [reflexivity|]. simpl.
  assert (Hlen : length (results (runBatch Send Marshal scope h corrID reqs w))
                 = length reqs).
  { unfold runBatch. by rewrite batchLoop_length. }
  assert (Hent : ∀ i req, reqs !! i = Some req →
            ∃ p w', results (runBatch Send Marshal scope h corrID reqs w) !! i =
              Some (dispatchItem Send Marshal h corrID i p req w').1).
  { intros i req Hi. do 2 eexists. unfold runBatch.
    exact (batchLoop_entry h corrID 0 reqs _ i req Hi). }
  split; [done|]. split; [by rewrite Hlen|]. split; [|done].
  intros i r Hi.
  destruct (reqs !! i) as [req|] eqn:Hreq.
  - destruct (Hent i req Hreq) as (p & w' & He).
    rewrite He in Hi. injection Hi as <-. apply dispatchItem_Index.
  - apply lookup_lt_Some in Hi. apply lookup_ge_None in Hreq. lia.
Qed.

(** C5.  The top-level status of a batch response is [dry-run] when the
    handler is in dry-run mode and [sent] otherwise, whatever the
    entries say. *)
Theorem PostBatch_top_level_status h corrID reqs w :
  ∃ b, body (PostBatch Send Marshal scope h corrID (BindOk reqs) w).1
         = BodyBatch b
    ∧ br_Status b = (if h_DryRun h then "dry-run" else "sent")
    ∧ br_DryRun b = h_DryRun h.
Proof. simpl. eexists. split; [reflexivity|]. done. Qed.

(** C8, amended.  A batch request whose body decodes is answered with
    200 OK and a [BatchResponse] body, whatever happens to its items; a
    batch request whose body does not decode is answered with 400 Bad
    Request and an error body. *)
Theorem PostBatch_status_code h corrID bound w :
  match bound with
  | BindOk reqs =>
      code (PostBatch Send Marshal scope h corrID bound w).1 = StatusOK
      ∧ ∃ b, body (PostBatch Send Marshal scope h corrID bound w).1
               = BodyBatch b
  | BindErr details =>
      code (PostBatch Send Marshal scope h corrID bound w).1 = StatusBadRequest
      ∧ ∃ fields, body (PostBatch Send Marshal scope h corrID bound w).1
                    = BodyH fields
          ∧ fields !! "status" = Some "error"
          ∧ fields !! "details" = Some details
  end.
Proof.
  destruct bound as [details|reqs]; simpl.
  - split; [done|]. eexists. split; [reflexivity|].
    unfold errorDetailsH, errorH. by simplify_map_eq.
  - split; [done|]. by eexists.
Qed.

(** In dry-run mode an iteration leaves the broker as it found it. *)
Lemma dispatchItem_dry_run_world h corrID i p req w :
  h_DryRun h = true →
  (dispatchItem Send Marshal h corrID i p req w).2 = w.
Proof.
  intros Hd. unfold dispatchItem. rewrite Hd.
  by repeat case_match.
Qed.

Lemma batchLoop_dry_run_world h corrID i reqs st :
  h_DryRun h = true →
  world (batchLoop Send Marshal scope h corrID i reqs st) = world st.
Proof.
  intros Hd. revert i st. induction reqs as [|x l IH]; intros i st; [done|].
  simpl. rewrite IH, (batchIter_world h corrID i None).
  by apply dispatchItem_dry_run_world.
Qed.

(** C3.  In dry-run mode an event that validates and serializes gets
    status [dry-run], the resolved topic, the length of its serialization
    and no message id, from [PostEvent] and as any item of a batch; and
    neither handler calls [Send]: the broker and its call log come back
    unchanged. *)
Theorem dry_run_never_sends h corrID req payloadBytes reqs i w :
  h_DryRun h = true →
  validateEventSchema req = None →
  Marshal req = Ok payloadBytes →
  reqs !! i = Some req →
  (∃ r, body (PostEvent Send Marshal h corrID (BindOk req) w).1 = BodyEvent r
      ∧ er_Status r = "dry-run" ∧ er_Topic r = resolveTopic h req
      ∧ er_Bytes r = Z.of_nat (length payloadBytes) ∧ er_MessageID r = "")
  ∧ (PostEvent Send Marshal h corrID (BindOk req) w).2 = w
  ∧ (∃ b r, body (PostBatch Send Marshal scope h corrID (BindOk reqs) w).1
             = BodyBatch b
      ∧ br_Results b !! i = Some r
      ∧ Status r = "dry-run" ∧ Topic r = resolveTopic h req
      ∧ Bytes r = Z.of_nat (length payloadBytes) ∧ MessageID r = "")
  ∧ (PostBatch Send Marshal scope h corrID (BindOk reqs) w).2 = w.
Proof.
  intros Hd Hv Hm Hi.
  split; [|split; [|split]].
  - unfold PostEvent. rewrite Hv, Hm, Hd. simpl. by eexists.
  - unfold PostEvent. by rewrite Hv, Hm, Hd.
  - simpl. do 2 eexists. split; [reflexivity|]. simpl.
    unfold runBatch.
    pose proof (batchLoop_entry h corrID 0 reqs
                  {| results := []; vars := loopEntry scope; world := w |}
                  i req Hi) as He.
    simpl in He. rewrite He. split; [reflexivity|].
    unfold dispatchItem. by rewrite Hv, Hm, Hd.
  - simpl. unfold runBatch. by rewrite batchLoop_dry_run_world.
Qed.

(** *** The echoed event *)


(** With one [req] for the whole loop the memory is that one cell, holding
    the event assigned last. *)
Lemma batchLoop_vars_per_loop h corrID i reqs st v :
  scope = PerLoop →
  vars st = [v] →
  vars (batchLoop Send Marshal scope h corrID i reqs st) = [default v (last reqs)].
Proof.
  intros Hs. revert i st v. induction reqs as [|x l IH]; intros i st v Hv.
  - done.
  - simpl batchLoop. rewrite (IH _ _ x).
    + rewrite last_cons. by destruct (last l).
    + by rewrite batchIter_vars, Hs, Hv.
Qed.

(** With a single [req] for the whole loop (Go before 1.22), every entry of
    a batch echoes the last event of the batch. *)
Lemma shared_loop_variable_echoes_last h corrID reqs w b i r :
  scope = PerLoop →
  body (PostBatch Send Marshal scope h corrID (BindOk reqs) w).1 = BodyBatch b →
  br_Results b !! i = Some r →
  deref (mem (PostBatch Send Marshal scope h corrID (BindOk reqs) w).1)
        (Event r) = last reqs.
Proof.
  intros Hs [= <-] Hi. simpl in *. unfold runBatch in *.
  set (st0 := {| results := []; vars := loopEntry scope; world := w |}) in *.
  assert (Hlt : (i < length reqs)%nat).
  { apply lookup_lt_Some in Hi. by rewrite batchLoop_length in Hi. }
  destruct (lookup_lt_is_Some_2 reqs i Hlt) as [x Hx].
  pose proof (batchLoop_entry h corrID 0 reqs st0 i x Hx) as He.
  simpl in He. rewrite He in Hi. injection Hi as <-.
  rewrite dispatchItem_Event.
  rewrite (batchLoop_vars_per_loop h corrID 0 reqs st0 zeroEventRequest Hs)
    by (by subst scope).
  subst scope. simpl.
  destruct (last reqs) eqn:El; [done|].
  apply last_None in El. subst reqs. simpl in Hlt. lia.
Qed.

(** *** Status code of a single event *)

(** C7, amended.  A single event that decodes, validates and serializes is
    answered with 201 Created when it is actually sent (live handler, [Send]
    succeeds) and with 200 OK when the handler is in dry-run mode. *)
Theorem PostEvent_success_code h corrID req payloadBytes w :
  validateEventSchema req = None →
  Marshal req = Ok payloadBytes →
  (h_DryRun h = true →
     code (PostEvent Send Marshal h corrID (BindOk req) w).1 = StatusOK)
  ∧ (h_DryRun h = false →
     ∀ msgID c, Send (conn w) payloadBytes = (Ok msgID, c) →
       code (PostEvent Send Marshal h corrID (BindOk req) w).1 = StatusCreated).
Proof.
  intros Hv Hm. unfold PostEvent. rewrite Hv, Hm. split.
  - by intros ->.
  - intros -> msgID c Hsend. unfold callSend. by rewrite Hsend.
Qed.

(** *** The schema map *)

(** The handlers read only [Topic] and [DryRun] of the handler. *)
Lemma dispatchItem_handler_ext h1 h2 corrID i p req w :
  h_Topic h1 = h_Topic h2 → h_DryRun h1 = h_DryRun h2 →
  dispatchItem Send Marshal h1 corrID i p req w
    = dispatchItem Send Marshal h2 corrID i p req w.
Proof.
  intros Ht Hd. unfold dispatchItem, resolveTopic. by rewrite Ht, Hd.
Qed.

Lemma batchLoop_handler_ext h1 h2 corrID i reqs st :
  h_Topic h1 = h_Topic h2 → h_DryRun h1 = h_DryRun h2 →
  batchLoop Send Marshal scope h1 corrID i reqs st
    = batchLoop Send Marshal scope h2 corrID i reqs st.
Proof.
  intros Ht Hd. revert i st. induction reqs as [|x l IH]; intros i st; [done|].
  simpl. rewrite IH. f_equal. unfold batchIter.
  destruct (bindLoopVar scope x (vars st)) as [a m].
  by rewrite (dispatchItem_handler_ext h1 h2).
Qed.

(** C10.  Two handlers built by [NewEventHandler] from the same default
    topic and dry-run flag answer every request to either endpoint in the
    same way, and leave the broker in the same state, whatever their schema
    maps are. *)
Theorem SchemaMap_noninterference topic dryRun sm1 sm2 corrID
    (one : BindResult EventRequest) (many : BindResult (list EventRequest)) w :
  PostEvent Send Marshal (NewEventHandler topic dryRun sm1) corrID one w
    = PostEvent Send Marshal (NewEventHandler topic dryRun sm2) corrID one w
  ∧ PostBatch Send Marshal scope (NewEventHandler topic dryRun sm1) corrID many w
    = PostBatch Send Marshal scope (NewEventHandler topic dryRun sm2) corrID many w.
Proof.
  split; [reflexivity|].
  destruct many as [details|reqs]; [reflexivity|].
  unfold PostBatch, runBatch.
  by rewrite (batchLoop_handler_ext (NewEventHandler topic dryRun sm1)
                (NewEventHandler topic dryRun sm2)).
Qed.

End HandlerProperties.

(** ** The handlers on concrete requests *)

(** The example batch of the specification: in dry-run mode, a valid
    SIGNALITIEK_ERROR followed by a WAGE_ERROR without [dossierId]. *)
Example spec_example_batch :
  match body (PostBatch okSend fakeMarshal PerIteration dryHandler "c-1"
                (BindOk [sigEvent; badWageEvent]) world0).1 with
  | BodyBatch b =>
      br_Count b = 2%Z
      ∧ map (λ r, (Index r, Status r, Error r)) (br_Results b) =
          [(0%Z, "dry-run", "");
           (1%Z, "error",
            "schema validation failed: payload.dossierId is required for WAGE_ERROR")]
  | _ => False
  end.
Proof. vm_compute. split; reflexivity. Qed.

(** Under the single-variable scoping every entry echoes the last event. *)
Example shared_loop_variable_batch :
  match body (PostBatch okSend fakeMarshal PerLoop dryHandler "c-1"
                (BindOk [sigEvent; otherEvent]) world0).1 with
  | BodyBatch b =>
      map (λ r, EventType <$>
                deref (mem (PostBatch okSend fakeMarshal PerLoop dryHandler "c-1"
                              (BindOk [sigEvent; otherEvent]) world0).1)
                      (Event r))
          (br_Results b)
      = [Some "AUDIT"; Some "AUDIT"]
  | _ => False
  end.
Proof. vm_compute. reflexivity. Qed.


(** The dry-run handler on a valid event, alone and as first item of a
    batch: the broker is left as it was. *)
Lemma dry_run_never_sends_witness :
  h_DryRun dryHandler = true
  ∧ validateEventSchema sigEvent = None
  ∧ fakeMarshal sigEvent = Ok sigBytes
  ∧ [sigEvent; badWageEvent] !! 0%nat = Some sigEvent
  ∧ (PostEvent okSend fakeMarshal dryHandler "c-1" (BindOk sigEvent) world0).2
    = world0
  ∧ (PostBatch okSend fakeMarshal PerIteration dryHandler "c-1"
       (BindOk [sigEvent; badWageEvent]) world0).2 = world0.
Proof.
  assert (H1 : h_DryRun dryHandler = true) by reflexivity.
  assert (H2 : validateEventSchema sigEvent = None) by (vm_compute; reflexivity).
  assert (H3 : fakeMarshal sigEvent = Ok sigBytes) by (vm_compute; reflexivity).
  assert (H4 : [sigEvent; badWageEvent] !! 0%nat = Some sigEvent) by reflexivity.
  destruct (dry_run_never_sends okSend fakeMarshal PerIteration dryHandler "c-1"
              sigEvent sigBytes [sigEvent; badWageEvent] 0 world0 H1 H2 H3 H4)
    as (_ & Hone & _ & Hmany).
  repeat split; assumption.
Defined.

(** The same valid event on the dry-run and on the live handler. *)
Lemma PostEvent_success_code_witness :
  validateEventSchema sigEvent = None
  ∧ fakeMarshal sigEvent = Ok sigBytes
  ∧ code (PostEvent okSend fakeMarshal dryHandler "c-1" (BindOk sigEvent)
            world0).1 = StatusOK
  ∧ code (PostEvent okSend fakeMarshal liveHandler "c-1" (BindOk sigEvent)
            world0).1 = StatusCreated.
Proof.
  assert (H1 : validateEventSchema sigEvent = None) by (vm_compute; reflexivity).
  assert (H2 : fakeMarshal sigEvent = Ok sigBytes) by (vm_compute; reflexivity).
  split; [exact H1|]. split; [exact H2|]. split.
  - exact (proj1 (PostEvent_success_code okSend fakeMarshal dryHandler "c-1"
                    sigEvent sigBytes world0 H1 H2) eq_refl).
  - exact (proj2 (PostEvent_success_code okSend fakeMarshal liveHandler "c-1"
                    sigEvent sigBytes world0 H1 H2) eq_refl "1:0:0" 1%nat eq_refl).
Defined.

(** C7 as stated fails: in dry-run mode a valid, serializable event is
    answered with 200, not 201. *)
Lemma PostEvent_dry_run_is_not_201 :
  validateEventSchema sigEvent = None
  ∧ fakeMarshal sigEvent = Ok sigBytes
  ∧ h_DryRun dryHandler = true
  ∧ code (PostEvent okSend fakeMarshal dryHandler "c-1" (BindOk sigEvent)
            world0).1 = StatusOK
  ∧ code (PostEvent okSend fakeMarshal dryHandler "c-1" (BindOk sigEvent)
            world0).1 ≠ StatusCreated.
Proof. vm_compute. repeat split; try reflexivity. discriminate. Qed.

(** C8 as stated fails: a batch request whose body does not decode is
    answered with 400 and a [gin.H] error body. *)
Lemma PostBatch_undecodable_is_400 :
  code (PostBatch okSend fakeMarshal PerIteration liveHandler "c-1"
          (BindErr "unexpected EOF") world0).1 = StatusBadRequest
  ∧ code (PostBatch okSend fakeMarshal PerIteration liveHandler "c-1"
            (BindErr "unexpected EOF") world0).1 ≠ StatusOK
  ∧ ∀ b, body (PostBatch okSend fakeMarshal PerIteration liveHandler "c-1"
                 (BindErr "unexpected EOF") world0).1 ≠ BodyBatch b.
Proof. repeat split; try reflexivity; discriminate. Qed.

(** ** Further properties of validation and routing *)

Lemma hasKey_dom (m : gmap string JSON) (k : string) :
  hasKey m k = true ↔ k ∈ dom m.
Proof. rewrite hasKey_true. symmetry. apply elem_of_dom. Qed.

Lemma hasKey_dom_eq (m m' : gmap string JSON) (k : string) :
  dom m = dom m' → hasKey m k = hasKey m' k.
Proof.
  intros Hd.
  destruct (hasKey m k) eqn:E, (hasKey m' k) eqn:E'; try done.
  - apply hasKey_dom in E. rewrite Hd in E. apply hasKey_dom in E. congruence.
  - apply hasKey_dom in E'. rewrite <- Hd in E'. apply hasKey_dom in E'.
    congruence.
Qed.

(** X1.  Validation reads the event type and the set of payload keys, and
    nothing else: not the values (a required key holding null counts as
    present), not the source system.  Two events of the same type with the
    same payload keys get the same verdict, message included. *)
Theorem validateEventSchema_keys_only (req req' : EventRequest) :
  EventType req = EventType req' →
  dom (Payload req) = dom (Payload req') →
  validateEventSchema req = validateEventSchema req'.
Proof.
  intros Ht Hd. unfold validateEventSchema. rewrite <- Ht.
  by rewrite !(hasKey_dom_eq (Payload req) (Payload req') _ Hd).
Qed.

(** X2.  Extra payload keys never hurt: an event that passes validation
    still passes when its payload has more keys. *)
Theorem validateEventSchema_more_keys (req req' : EventRequest) :
  EventType req = EventType req' →
  dom (Payload req) ⊆ dom (Payload req') →
  validateEventSchema req = None →
  validateEventSchema req' = None.
Proof.
  intros Ht Hd. unfold validateEventSchema. rewrite <- Ht.
  assert (Hk : ∀ k, hasKey (Payload req) k = true →
                    hasKey (Payload req') k = true).
  { intros k. rewrite !hasKey_dom. apply Hd. }
  destruct (String.eqb (EventType req) "SIGNALITIEK_ERROR").
  - destruct (hasKey (Payload req) "errorCode") eqn:E1; [|discriminate].
    destruct (hasKey (Payload req) "employerId") eqn:E2; [|discriminate].
    by rewrite (Hk _ E1), (Hk _ E2).
  - destruct (String.eqb (EventType req) "WAGE_ERROR"); [|done].
    destruct (hasKey (Payload req) "dossierId") eqn:E; [|discriminate].
    by rewrite (Hk _ E).
Qed.

(** X3.  Only routed types have schema rules: an event that fails validation
    has a type of the routing table, so its topic does not depend on the
    handler's default.  Put the other way round, an event that falls back
    to the default topic always passes validation. *)
Theorem schema_failure_only_for_routed_types (req : EventRequest) (msg : string) :
  validateEventSchema req = Some msg →
  ∃ t, eventTypeTopicMap !! EventType req = Some t
       ∧ ∀ h, resolveTopic h req = t.
Proof.
  unfold validateEventSchema, resolveTopic.
  rewrite eventTypeTopicMap_content.
  destruct (String.eqb (EventType req) "SIGNALITIEK_ERROR"); [eauto|].
  destruct (String.eqb (EventType req) "WAGE_ERROR"); [eauto|].
  discriminate.
Qed.

(** A handler with a non-empty default topic never resolves an event to the
    empty topic. *)
Lemma resolveTopic_nonempty (h : EventHandler) (req : EventRequest) :
  h_Topic h ≠ "" → resolveTopic h req ≠ "".
Proof.
  intros Hne. unfold resolveTopic. rewrite eventTypeTopicMap_content.
  repeat case_match; simplify_eq; done.
Qed.

Lemma validateEventSchema_keys_only_witness :
  EventType sigEvent = EventType nullKeysEvent
  ∧ dom (Payload sigEvent) = dom (Payload nullKeysEvent)
  ∧ validateEventSchema sigEvent = validateEventSchema nullKeysEvent.
Proof.
  assert (H1 : EventType sigEvent = EventType nullKeysEvent) by reflexivity.
  assert (H2 : dom (Payload sigEvent) = dom (Payload nullKeysEvent))
    by (vm_compute; reflexivity).
  split; [exact H1|]. split; [exact H2|].
  exact (validateEventSchema_keys_only sigEvent nullKeysEvent H1 H2).
Defined.

Lemma validateEventSchema_more_keys_witness :
  EventType sigEvent = EventType sigEventMore
  ∧ dom (Payload sigEvent) ⊆ dom (Payload sigEventMore)
  ∧ validateEventSchema sigEvent = None
  ∧ validateEventSchema sigEventMore = None.
Proof.
  assert (H1 : EventType sigEvent = EventType sigEventMore) by reflexivity.
  assert (H2 : dom (Payload sigEvent) ⊆ dom (Payload sigEventMore)).
  { change (Payload sigEventMore)
      with (<["message" := JString "Test event"]> (Payload sigEvent)).
    rewrite dom_insert_L. intros k Hk. apply elem_of_union. by right. }
  assert (H3 : validateEventSchema sigEvent = None) by (vm_compute; reflexivity).
  split; [exact H1|]. split; [exact H2|]. split; [exact H3|].
  exact (validateEventSchema_more_keys sigEvent sigEventMore H1 H2 H3).
Defined.

Lemma schema_failure_only_for_routed_types_witness :
  validateEventSchema badWageEvent
    = Some "payload.dossierId is required for WAGE_ERROR"
  ∧ ∃ t, eventTypeTopicMap !! EventType badWageEvent = Some t
         ∧ ∀ h, resolveTopic h badWageEvent = t.
Proof.
  assert (H1 : validateEventSchema badWageEvent
               = Some "payload.dossierId is required for WAGE_ERROR")
    by (vm_compute; reflexivity).
  split; [exact H1|].
  exact (schema_failure_only_for_routed_types badWageEvent _ H1).
Defined.


(** ** Further properties of the handlers *)

Section MoreHandlerProperties.
Context {Conn : Type}.
Variable Send : Conn → list Byte.byte → GoResult string * Conn.
Variable Marshal : EventRequest → GoResult (list Byte.byte).

Lemma callSend_calls (w : World Conn) (msg : list Byte.byte) :
  calls (callSend Send w msg).2 = calls w ++ [msg].
Proof. unfold callSend. by destruct (Send (conn w) msg). Qed.

(** The broker after one iteration: one more call for an event that is to be
    sent, none otherwise. *)
Lemma dispatchItem_calls h corrID i p req w :
  calls (dispatchItem Send Marshal h corrID i p req w).2 =
    calls w ++ option_list (payloadToSend Marshal h req).
Proof.
  unfold dispatchItem, payloadToSend.
  destruct (validateEventSchema req) as [err|];
    [by destruct (h_DryRun h); rewrite app_nil_r|].
  destruct (Marshal req) as [payloadBytes|e];
    [|by destruct (h_DryRun h); rewrite app_nil_r].
  destruct (h_DryRun h); [by rewrite app_nil_r|].
  pose proof (callSend_calls w payloadBytes) as Hc.
  by destruct (callSend Send w payloadBytes) as [[msgID|e] w'].
Qed.

Lemma batchLoop_calls scope h corrID i reqs st :
  calls (world (batchLoop Send Marshal scope h corrID i reqs st)) =
    calls (world st) ++ omap (payloadToSend Marshal h) reqs.
Proof.
  revert i st. induction reqs as [|x l IH]; intros i st; simpl.
  - by rewrite app_nil_r.
  - rewrite IH, (batchIter_world Send Marshal scope h corrID i None).
    rewrite dispatchItem_calls, <- app_assoc. f_equal.
    by destruct (payloadToSend Marshal h x).
Qed.

(** X4.  What reaches the broker from a batch: exactly the serializations
    of the events that pass validation and serialization, once each, in
    submission order, and nothing in dry-run mode; whether a send fails has
    no influence on the sends that follow.  A body that does not decode
    sends nothing. *)
Theorem PostBatch_call_log scope h corrID bound w :
  calls (PostBatch Send Marshal scope h corrID bound w).2 =
    calls w ++
    match bound with
    | BindOk reqs => omap (payloadToSend Marshal h) reqs
    | BindErr _ => []
    end.
Proof.
  destruct bound as [details|reqs]; simpl.
  - by rewrite app_nil_r.
  - unfold runBatch. by rewrite batchLoop_calls.
Qed.

(** X5.  [PostEvent] calls [Send] at most once, with the serialization of
    the event, and only for an event that decoded, validated and
    serialized, on a live handler. *)
Theorem PostEvent_call_log h corrID bound w :
  calls (PostEvent Send Marshal h corrID bound w).2 =
    calls w ++
    match bound with
    | BindOk req => option_list (payloadToSend Marshal h req)
    | BindErr _ => []
    end.
Proof.
  destruct bound as [details|req]; simpl.
  - by rewrite app_nil_r.
  - unfold payloadToSend.
    destruct (validateEventSchema req) as [err|];
      [by destruct (h_DryRun h); rewrite app_nil_r|].
    destruct (Marshal req) as [payloadBytes|e];
      [|by destruct (h_DryRun h); rewrite app_nil_r].
    destruct (h_DryRun h); [by rewrite app_nil_r|].
    pose proof (callSend_calls w payloadBytes) as Hc.
    by destruct (callSend Send w payloadBytes) as [[msgID|e] w'].
Qed.

(** X6.  The shape of every answer of [PostEvent].  It is either a success
    body, with 200 and status [dry-run] on a dry-run handler or 201 and
    status [sent] on a live one, or a [gin.H] with status [error] and code
    400 or 500; the code is 400 exactly when the body did not decode or the
    event failed validation; and the body always carries the correlation id
    of the request. *)
Theorem PostEvent_response_shape h corrID bound w :
  let resp := (PostEvent Send Marshal h corrID bound w).1 in
  ((∃ r, body resp = BodyEvent r
         ∧ er_CorrelationID r = corrID ∧ er_DryRun r = h_DryRun h
         ∧ ((code resp = StatusOK ∧ er_Status r = "dry-run"
             ∧ h_DryRun h = true)
            ∨ (code resp = StatusCreated ∧ er_Status r = "sent"
               ∧ h_DryRun h = false)))
   ∨ (∃ fields, body resp = BodyH fields
         ∧ fields !! "status" = Some "error"
         ∧ fields !! "correlationId" = Some corrID
         ∧ (code resp = StatusBadRequest
            ∨ code resp = StatusInternalServerError)))
  ∧ (code resp = StatusBadRequest ↔
       match bound with
       | BindErr _ => True
       | BindOk req => validateEventSchema req ≠ None
       end).
Proof.
  unfold StatusOK, StatusCreated, StatusBadRequest, StatusInternalServerError.
  destruct bound as [details|req]; simpl.
  { split; [right|by split]. eexists. split; [reflexivity|].
    unfold errorDetailsH, errorH. by simplify_map_eq; auto. }
  destruct (validateEventSchema req) as [err|]; simpl.
  { split; [right|by split]. eexists. split; [reflexivity|].
    unfold errorDetailsH, errorH. by simplify_map_eq; auto. }
  destruct (Marshal req) as [payloadBytes|e]; simpl.
  2:{ split; [right|split; [discriminate|congruence]].
      eexists. split; [reflexivity|].
      unfold errorH. by simplify_map_eq; auto. }
  destruct (h_DryRun h) eqn:Hd; simpl.
  { split; [left|split; [discriminate|congruence]].
    eexists. split; [reflexivity|]. simpl. by repeat split; left. }
  destruct (callSend Send w payloadBytes) as [[msgID|e] w']; simpl.
  - split; [left|split; [discriminate|congruence]].
    eexists. split; [reflexivity|]. simpl. by repeat split; right.
  - split; [right|split; [discriminate|congruence]].
    eexists. split; [reflexivity|].
    unfold errorDetailsH, errorH. by simplify_map_eq; auto.
Qed.

End MoreHandlerProperties.

(** ** Further properties of the batch loop *)

Section MoreBatchProperties.
Context {Conn : Type}.
Variable Send : Conn → list Byte.byte → GoResult string * Conn.
Variable Marshal : EventRequest → GoResult (list Byte.byte).

(** Every entry of a batch is the dispatch of the event at its position. *)
Lemma runBatch_entry_inv scope h corrID reqs w i r :
  results (runBatch Send Marshal scope h corrID reqs w) !! i = Some r →
  ∃ req p w', reqs !! i = Some req
    ∧ r = (dispatchItem Send Marshal h corrID i p req w').1.
Proof.
  unfold runBatch. intros Hi.
  assert (Hlt : (i < length reqs)%nat).
  { apply lookup_lt_Some in Hi. by rewrite batchLoop_length in Hi. }
  destruct (lookup_lt_is_Some_2 reqs i Hlt) as [req Hreq].
  pose proof (batchLoop_entry Send Marshal scope h corrID 0 reqs
                {| results := []; vars := loopEntry scope; world := w |}
                i req Hreq) as He.
  simpl in He. rewrite He in Hi. injection Hi as <-. eauto.
Qed.

(** X7.  Every entry of a batch response is well-formed: on a dry-run
    handler its status is [dry-run] or [error], on a live one [sent] or
    [error]; the status is [error] exactly when the entry has an error
    text; an [error] entry has no message id; it carries the correlation id
    of the request; and its byte count is not negative. *)
Theorem PostBatch_entries_well_formed scope h corrID reqs w :
  Forall (λ r,
      (if h_DryRun h
       then Status r = "dry-run" ∨ Status r = "error"
       else Status r = "sent" ∨ Status r = "error")
      ∧ (Status r = "error" ↔ Error r ≠ "")
      ∧ (Status r = "error" → MessageID r = "")
      ∧ CorrelationID r = corrID
      ∧ (0 ≤ Bytes r)%Z)
    (results (runBatch Send Marshal scope h corrID reqs w)).
Proof.
  apply Forall_lookup_2. intros i r Hi.
  destruct (runBatch_entry_inv _ _ _ _ _ _ _ Hi) as (req & p & w' & _ & ->).
  unfold dispatchItem.
  destruct (validateEventSchema req) as [err|]; simpl.
  { destruct (h_DryRun h); repeat split; auto; discriminate. }
  destruct (Marshal req) as [payloadBytes|e]; simpl.
  2:{ destruct (h_DryRun h); repeat split; auto; discriminate. }
  destruct (h_DryRun h); simpl.
  { repeat split; auto; try discriminate; try lia; congruence. }
  destruct (callSend Send w' payloadBytes) as [[msgID|e] w'']; simpl.
  - repeat split; auto; try discriminate; try lia; congruence.
  - repeat split; auto; try discriminate; lia.
Qed.

(** X8.  Batches compose: dispatching [l1 ++ l2] gives the outcomes of
    dispatching [l1] followed by those of dispatching [l2] against the
    broker as [l1] left it, and leaves the broker in the same state.
    Splitting a batch into two consecutive requests changes nothing but the
    indices. *)
Theorem runBatch_app scope h corrID l1 l2 w :
  let st1 := runBatch Send Marshal scope h corrID l1 w in
  map outcomeOf (results (runBatch Send Marshal scope h corrID (l1 ++ l2) w))
    = map outcomeOf (results st1)
      ++ map outcomeOf
           (results (runBatch Send Marshal scope h corrID l2 (world st1)))
  ∧ world (runBatch Send Marshal scope h corrID (l1 ++ l2) w)
    = world (runBatch Send Marshal scope h corrID l2 (world st1)).
Proof.
  intros st1. unfold runBatch. rewrite batchLoop_app. fold (runBatch Send Marshal scope h corrID l1 w). fold st1.
  destruct (batchLoop_outcomes Send Marshal scope h corrID (0 + length l1) 0 l2
              st1 {| results := []; vars := loopEntry scope; world := world st1 |}
              eq_refl) as [Ho Hw].
  split; [|exact Hw].
  rewrite (batchLoop_split Send Marshal scope h corrID (0 + length l1) l2 st1).
  rewrite map_app, Ho. simpl. by rewrite drop_0.
Qed.

(** Index and outcome of an entry. *)
Lemma dispatchItem_Index_outcome h corrID i p p' req w :
  (Index (dispatchItem Send Marshal h corrID i p req w).1,
   outcomeOf (dispatchItem Send Marshal h corrID i p req w).1)
  = (Index (dispatchItem Send Marshal h corrID i p' req w).1,
     outcomeOf (dispatchItem Send Marshal h corrID i p' req w).1).
Proof.
  rewrite !dispatchItem_Index.
  by rewrite (proj1 (dispatchItem_outcome Send Marshal h corrID i i p p' req w)).
Qed.

Lemma batchLoop_scopes scope scope' h corrID i reqs st st' :
  world st = world st' →
  map (λ r, (Index r, outcomeOf r))
      (drop (length (results st))
            (results (batchLoop Send Marshal scope h corrID i reqs st)))
  = map (λ r, (Index r, outcomeOf r))
      (drop (length (results st'))
            (results (batchLoop Send Marshal scope' h corrID i reqs st')))
  ∧ world (batchLoop Send Marshal scope h corrID i reqs st)
    = world (batchLoop Send Marshal scope' h corrID i reqs st').
Proof.
  revert i st st'. induction reqs as [|x l IH]; intros i st st' Hw.
  - simpl. by rewrite !drop_all.
  - rewrite !batchLoop_cons_drop. simpl.
    set (p := Some (bindLoopVar scope x (vars st)).1).
    set (p' := Some (bindLoopVar scope' x (vars st')).1).
    assert (Hw1 : world (batchIter Send Marshal scope h corrID i x st) =
                  world (batchIter Send Marshal scope' h corrID i x st')).
    { rewrite (batchIter_world Send Marshal scope h corrID i p),
        (batchIter_world Send Marshal scope' h corrID i p'), <- Hw.
      apply (dispatchItem_outcome Send Marshal h corrID i i p p' x (world st)). }
    destruct (IH (S i) _ _ Hw1) as [IH1 IH2].
    split; [|done].
    f_equal; [|done]. rewrite <- Hw.
    apply dispatchItem_Index_outcome.
Qed.

(** X9.  The scoping of the loop variable can only show in the echoed
    event: under either scoping [PostBatch] answers with the same code, the
    same top-level fields, entries with the same index, status, topic, byte
    count, message id, error text and correlation id, and leaves the broker
    in the same state. *)
Theorem PostBatch_scope_only_affects_echo scope scope' h corrID bound w :
  let out := PostBatch Send Marshal scope h corrID bound w in
  let out' := PostBatch Send Marshal scope' h corrID bound w in
  code out.1 = code out'.1
  ∧ out.2 = out'.2
  ∧ match body out.1, body out'.1 with
    | BodyBatch b, BodyBatch b' =>
        br_Status b = br_Status b' ∧ br_Count b = br_Count b'
        ∧ br_DryRun b = br_DryRun b'
        ∧ map (λ r, (Index r, outcomeOf r)) (br_Results b)
          = map (λ r, (Index r, outcomeOf r)) (br_Results b')
    | BodyH fields, BodyH fields' => fields = fields'
    | _, _ => False
    end.
Proof.
  destruct bound as [details|reqs]; simpl; [done|].
  unfold runBatch.
  destruct (batchLoop_scopes scope scope' h corrID 0 reqs
              {| results := []; vars := loopEntry scope; world := w |}
              {| results := []; vars := loopEntry scope'; world := w |}
              eq_refl) as [Ho Hw].
  simpl in Ho. rewrite !drop_0 in Ho.
  split; [done|]. split; [done|]. split; [done|].
  split; [by rewrite !batchLoop_length|]. by split.
Qed.

(** X10.  The two endpoints agree on an event.  Sent alone to [PostEvent]
    or as a batch of one to [PostBatch], an event leaves the broker in the
    same state; where [PostEvent] answers with a success body the batch
    entry has the same status, topic, byte count and message id and no
    error text, and where [PostEvent] answers with an error body the entry
    has status [error]. *)
Theorem PostEvent_agrees_with_batch_of_one scope h corrID req w :
  let single := PostEvent Send Marshal h corrID (BindOk req) w in
  let st := runBatch Send Marshal scope h corrID [req] w in
  world st = single.2
  ∧ ∃ e, results st = [e]
      ∧ match body single.1 with
        | BodyEvent r =>
            Status e = er_Status r ∧ Topic e = er_Topic r
            ∧ Bytes e = er_Bytes r ∧ MessageID e = er_MessageID r
            ∧ Error e = "" ∧ CorrelationID e = er_CorrelationID r
        | BodyH fields =>
            Status e = "error" ∧ fields !! "status" = Some "error"
        | BodyBatch _ => False
        end.
Proof.
  unfold runBatch. simpl.
  rewrite (batchIter_world Send Marshal scope h corrID 0 None),
    batchIter_results. simpl.
  unfold dispatchItem, PostEvent, errorDetailsH, errorH.
  destruct (validateEventSchema req) as [err|]; simpl.
  { split; [done|]. eexists. split; [done|]. by simplify_map_eq. }
  destruct (Marshal req) as [payloadBytes|e]; simpl.
  2:{ split; [done|]. eexists. split; [done|]. by simplify_map_eq. }
  destruct (h_DryRun h); simpl.
  { split; [done|]. eexists. by split. }
  destruct (callSend Send w payloadBytes) as [[msgID|e] w']; simpl.
  - split; [done|]. eexists. by split.
  - split; [done|]. eexists. split; [done|]. by simplify_map_eq.
Qed.

Lemma batchLoop_dry_run_outcomes scope h corrID i reqs st :
  h_DryRun h = true →
  map outcomeOf
      (drop (length (results st))
            (results (batchLoop Send Marshal scope h corrID i reqs st)))
  = map (λ req, outcomeOf
                  (dispatchItem Send Marshal h corrID 0 None req (world st)).1)
        reqs.
Proof.
  intros Hd. revert i st. induction reqs as [|x l IH]; intros i st.
  - simpl. by rewrite drop_all.
  - rewrite batchLoop_cons_drop. simpl. rewrite IH.
    rewrite (batchIter_world Send Marshal scope h corrID i None),
      dispatchItem_dry_run_world by done.
    f_equal.
    apply (dispatchItem_outcome Send Marshal h corrID).
Qed.

(** X11.  In dry-run mode the items of a batch do not interact at all: the
    outcome of each is the outcome of dispatching it on its own, whatever
    the batch around it. *)
Theorem dry_run_batch_outcomes_itemwise scope h corrID reqs w :
  h_DryRun h = true →
  map outcomeOf (results (runBatch Send Marshal scope h corrID reqs w))
  = concat (map (λ req, map outcomeOf
                          (results (runBatch Send Marshal scope h corrID [req] w)))
                reqs).
Proof.
  intros Hd. unfold runBatch at 1.
  pose proof (batchLoop_dry_run_outcomes scope h corrID 0 reqs
                {| results := []; vars := loopEntry scope; world := w |} Hd)
    as Ho.
  simpl in Ho. rewrite drop_0 in Ho. rewrite Ho. clear Ho.
  induction reqs as [|x l IH]; [done|].
  simpl. rewrite <- IH. unfold runBatch at 1. simpl.
  rewrite batchIter_results. simpl. f_equal.
  apply (dispatchItem_outcome Send Marshal h corrID).
Qed.

End MoreBatchProperties.

Lemma dry_run_batch_outcomes_itemwise_witness :
  h_DryRun dryHandler = true
  ∧ map outcomeOf
      (results (runBatch okSend fakeMarshal PerIteration dryHandler "c-1"
                  [sigEvent; badWageEvent; otherEvent] world0))
    = concat
        (map (λ req, map outcomeOf
                       (results (runBatch okSend fakeMarshal PerIteration
                                   dryHandler "c-1" [req] world0)))
             [sigEvent; badWageEvent; otherEvent]).
Proof.
  assert (H1 : h_DryRun dryHandler = true) by reflexivity.
  split; [exact H1|].
  exact (dry_run_batch_outcomes_itemwise okSend fakeMarshal PerIteration
           dryHandler "c-1" [sigEvent; badWageEvent; otherEvent] world0 H1).
Defined.

(** ** The correlation id, from the request header to the response *)

Lemma CorrelationIDHeader_canonical :
  middleware.CanonicalMIMEHeaderKey middleware.CorrelationIDHeader
    = "X-Correlation-Id".
Proof. reflexivity. Qed.

Lemma HeaderGet_Set (h : gmap string (list string)) (key value : string) :
  middleware.HeaderGet (middleware.HeaderSet h key value) key = value.
Proof.
  unfold middleware.HeaderGet, middleware.HeaderSet.
  by rewrite lookup_insert_eq.
Qed.

(** X12.  The middleware settles the correlation id of a request: the first
    value of the incoming [X-Correlation-ID] header, in whatever spelling of
    the name it arrived, when that value is not empty, and a fresh UUID
    otherwise.  The handler reads exactly that id back with
    [GetCorrelationID], whatever was stored under the key before; the
    response header [X-Correlation-ID] is set to it, as its only value,
    under the canonical name; the request headers, the other context keys
    and the other response headers are left alone. *)
Theorem CorrelationID_settles_id (newString : string) (c : middleware.GinContext) :
  let c' := middleware.CorrelationID newString c in
  let incoming := middleware.GetHeader c middleware.CorrelationIDHeader in
  let id := if String.eqb incoming "" then newString else incoming in
  middleware.GetCorrelationID c' = id
  ∧ middleware.HeaderGet (middleware.WriterHeader c')
      middleware.CorrelationIDHeader = id
  ∧ middleware.WriterHeader c' !! "X-Correlation-Id" = Some [id]
  ∧ middleware.RequestHeader c' = middleware.RequestHeader c
  ∧ (∀ k, k ≠ middleware.correlationKey →
          middleware.Keys c' !! k = middleware.Keys c !! k)
  ∧ (∀ k, k ≠ "X-Correlation-Id" →
          middleware.WriterHeader c' !! k = middleware.WriterHeader c !! k)
  ∧ (∀ name, middleware.CanonicalMIMEHeaderKey name = "X-Correlation-Id" →
             middleware.GetHeader c name = incoming
             ∧ middleware.HeaderGet (middleware.WriterHeader c') name = id).
Proof.
  intros c' incoming id.
  unfold c', middleware.GetCorrelationID, middleware.CorrelationID. simpl.
  fold incoming. fold id.
  rewrite lookup_insert_eq, HeaderGet_Set.
  unfold middleware.HeaderSet. rewrite CorrelationIDHeader_canonical.
  rewrite lookup_insert_eq.
  split; [done|]. split; [done|]. split; [done|]. split; [done|].
  split; [intros k Hk; by rewrite lookup_insert_ne|].
  split; [intros k Hk; by rewrite lookup_insert_ne|].
  intros name Hn. unfold incoming, middleware.GetHeader, middleware.HeaderGet.
  by rewrite Hn, CorrelationIDHeader_canonical, lookup_insert_eq.
Qed.

(** A caller that spells the header in lower case keeps its id; a caller
    that sends none gets the fresh one. *)
Example CorrelationID_on_requests :
  middleware.GetCorrelationID (middleware.CorrelationID "uuid-1" taggedContext)
    = "req-42"
  ∧ middleware.WriterHeader (middleware.CorrelationID "uuid-1" taggedContext)
      !! "X-Correlation-Id" = Some ["req-42"]
  ∧ middleware.GetCorrelationID (middleware.CorrelationID "uuid-1" bareContext)
    = "uuid-1".
Proof. vm_compute. repeat split; reflexivity. Qed.

Section CorrelationEndToEnd.
Context {Conn : Type}.
Variable Send : Conn → list Byte.byte → GoResult string * Conn.
Variable Marshal : EventRequest → GoResult (list Byte.byte).

Lemma PostEvent_body_correlation h corrID bound w :
  bodyCorrelationIDs (body (PostEvent Send Marshal h corrID bound w).1)
    = [corrID].
Proof.
  unfold PostEvent, errorDetailsH, errorH.
  repeat (case_match; simpl; simplify_map_eq; try done).
Qed.

Lemma batchLoop_correlation scope h corrID i reqs st :
  map CorrelationID (results (batchLoop Send Marshal scope h corrID i reqs st))
    = map CorrelationID (results st) ++ replicate (length reqs) corrID.
Proof.
  revert i st. induction reqs as [|x l IH]; intros i st; simpl.
  - by rewrite app_nil_r.
  - rewrite IH, batchIter_results, map_app, <- app_assoc. simpl.
    do 2 f_equal. unfold dispatchItem.
    repeat (case_match; simpl; try done).
Qed.

Lemma PostBatch_body_correlation scope h corrID bound w :
  bodyCorrelationIDs (body (PostBatch Send Marshal scope h corrID bound w).1)
    = match bound with
      | BindErr _ => [corrID]
      | BindOk reqs => replicate (length reqs) corrID
      end.
Proof.
  destruct bound as [details|reqs]; simpl.
  - unfold errorDetailsH, errorH. by simplify_map_eq.
  - unfold runBatch. by rewrite batchLoop_correlation.
Qed.

(** X13.  One id per request, end to end.  Behind the middleware, every
    answer of either endpoint (success, error, and every entry of a batch)
    shows one and the same correlation id, the one of the response header
    [X-Correlation-ID]: the caller's, in whatever spelling of the header
    name it arrived, when the request brought a non-empty one, a fresh UUID
    otherwise. *)
Theorem one_correlation_id_per_request scope newString h c one many w :
  let incoming := middleware.GetHeader c middleware.CorrelationIDHeader in
  let id := if String.eqb incoming "" then newString else incoming in
  let ev := serveEvent Send Marshal newString h c one w in
  let ba := serveBatch Send Marshal scope newString h c many w in
  middleware.HeaderGet (middleware.WriterHeader ev.1)
    middleware.CorrelationIDHeader = id
  ∧ bodyCorrelationIDs (body ev.2.1) = [id]
  ∧ middleware.HeaderGet (middleware.WriterHeader ba.1)
      middleware.CorrelationIDHeader = id
  ∧ Forall (λ x, x = id) (bodyCorrelationIDs (body ba.2.1))
  ∧ length (bodyCorrelationIDs (body ba.2.1))
    = match many with
      | BindErr _ => 1%nat
      | BindOk reqs => length reqs
      end.
Proof.
  intros incoming id ev ba. unfold ev, ba, serveEvent, serveBatch. simpl.
  rewrite PostEvent_body_correlation, PostBatch_body_correlation.
  assert (Hid : middleware.GetCorrelationID
                  (middleware.CorrelationID newString c) = id).
  { unfold middleware.GetCorrelationID, middleware.CorrelationID. simpl.
    by rewrite lookup_insert_eq. }
  rewrite Hid. fold incoming. fold id. rewrite HeaderGet_Set.
  split; [done|]. split; [done|]. split; [done|].
  destruct many as [details|reqs].
  - split; [by repeat constructor|done].
  - split; [|by rewrite length_replicate].
    apply Forall_forall. intros x Hx.
    by apply elem_of_replicate in Hx as [-> _].
Qed.

End CorrelationEndToEnd.

(** ** Start-up *)

Lemma eqb_empty_false (s : string) : String.eqb s "" = false ↔ s ≠ "".
Proof. apply String.eqb_neq. Qed.

(** X14.  When [main] gets to serve, it serves a sound handler: the broker
    URL and the default topic are not empty, the handler carries the
    configured topic, dry-run flag and schema map, it holds a producer
    exactly when it is live (the one [NewProducer] returned for the
    configured URL and topic) and none in dry-run mode, and it never
    resolves an event to the empty topic. *)
Theorem main_serves_sound_handler {Conn : Type}
    (NewProducer : string → string → GoResult Conn)
    (loaded : GoResult Config) h producer port :
  main NewProducer loaded = Serving h producer port →
  ∃ cfg, loaded = Ok cfg
    ∧ pulsar_url cfg ≠ "" ∧ pulsar_defaultTopic cfg ≠ ""
    ∧ h = NewEventHandler (pulsar_defaultTopic cfg) (api_dryRun cfg) (schemas cfg)
    ∧ port = api_port cfg
    ∧ (if h_DryRun h then producer = None
       else ∃ p, producer = Some p
                 ∧ NewProducer (pulsar_url cfg) (pulsar_defaultTopic cfg) = Ok p)
    ∧ ∀ req, resolveTopic h req ≠ "".
Proof.
  unfold main. destruct loaded as [cfg|e]; [|discriminate].
  destruct (String.eqb (pulsar_url cfg) "") eqn:Eu; [discriminate|].
  destruct (String.eqb (pulsar_defaultTopic cfg) "") eqn:Et; [discriminate|].
  apply eqb_empty_false in Eu, Et. simpl.
  destruct (api_dryRun cfg) eqn:Ed; simpl.
  - intros [= <- <- <-]. exists cfg. simpl. rewrite Ed.
    do 6 (split; [done|]). intros req. by apply resolveTopic_nonempty.
  - destruct (NewProducer (pulsar_url cfg) (pulsar_defaultTopic cfg))
      as [p|msg] eqn:Ep; [|discriminate].
    intros [= <- <- <-]. exists cfg. simpl. rewrite Ed.
    do 5 (split; [done|]). split; [by exists p|].
    intros req. by apply resolveTopic_nonempty.
Qed.

(** X15.  When [main] gets to serve at all: the configuration loaded, the
    broker URL and the default topic are both non-empty (in dry-run mode
    too), and the handler is in dry-run mode or [NewProducer] succeeded. *)
Theorem main_serves_iff {Conn : Type}
    (NewProducer : string → string → GoResult Conn) (loaded : GoResult Config) :
  (∃ h producer port, main NewProducer loaded = Serving h producer port)
  ↔ ∃ cfg, loaded = Ok cfg
      ∧ pulsar_url cfg ≠ "" ∧ pulsar_defaultTopic cfg ≠ ""
      ∧ (api_dryRun cfg = true
         ∨ ∃ p, NewProducer (pulsar_url cfg) (pulsar_defaultTopic cfg) = Ok p).
Proof.
  unfold main. split.
  - intros (h & producer & port & Hm).
    destruct loaded as [cfg|e]; [|discriminate]. exists cfg.
    destruct (String.eqb (pulsar_url cfg) "") eqn:Eu; [discriminate|].
    destruct (String.eqb (pulsar_defaultTopic cfg) "") eqn:Et; [discriminate|].
    apply eqb_empty_false in Eu, Et. simpl in Hm.
    destruct (api_dryRun cfg); [by auto|]. simpl in Hm.
    destruct (NewProducer (pulsar_url cfg) (pulsar_defaultTopic cfg))
      as [p|msg]; [|discriminate].
    do 3 (split; [done|]). right. by exists p.
  - intros (cfg & -> & Hu & Ht & Hp).
    apply eqb_empty_false in Hu, Ht. rewrite Hu, Ht. simpl.
    destruct (api_dryRun cfg); simpl; [by eauto|].
    destruct Hp as [Hp|[p Hp]]; [discriminate|]. rewrite Hp. by eauto.
Qed.

(** X16.  In dry-run mode [main] never asks for a producer: what it does is
    the same with any [NewProducer], so a dry-run instance starts whether or
    not the broker can be reached. *)
Theorem main_dry_run_ignores_broker {Conn : Type}
    (NewProducer NewProducer' : string → string → GoResult Conn)
    (cfg : Config) :
  api_dryRun cfg = true →
  main NewProducer (Ok cfg) = main NewProducer' (Ok cfg).
Proof. intros Hd. unfold main. by rewrite Hd. Qed.

Lemma main_serves_sound_handler_witness :
  main reachable (Ok liveConfig) = Serving liveHandler (Some 0%nat) 8080
  ∧ ∀ req, resolveTopic liveHandler req ≠ "".
Proof.
  assert (H1 : main reachable (Ok liveConfig)
               = Serving liveHandler (Some 0%nat) 8080) by reflexivity.
  split; [exact H1|].
  destruct (main_serves_sound_handler reachable (Ok liveConfig) liveHandler
              (Some 0%nat) 8080 H1) as (cfg & _ & _ & _ & _ & _ & _ & Hr).
  exact Hr.
Defined.

Lemma main_dry_run_ignores_broker_witness :
  api_dryRun dryConfig = true
  ∧ main reachable (Ok dryConfig) = main unreachable (Ok dryConfig).
Proof.
  assert (H1 : api_dryRun dryConfig = true) by reflexivity.
  split; [exact H1|].
  exact (main_dry_run_ignores_broker reachable unreachable dryConfig H1).
Defined.

(** A live instance does not start when the broker cannot be reached, and no
    instance starts without a broker URL, dry-run or not. *)
Example main_fatal_cases :
  main unreachable (Ok liveConfig)
    = Fatal "failed to create pulsar client: connection refused"
  ∧ main reachable
      (Ok {| pulsar_url := ""; pulsar_defaultTopic := "t"; api_dryRun := true;
             api_port := 8080; schemas := ∅ |})
    = Fatal "PULSAR_URL and PULSAR_TOPIC must be set".
Proof. split; reflexivity. Qed.

(** ** What a failure tells the caller *)

Section FailureReports.
Context {Conn : Type}.
Variable Send : Conn → list Byte.byte → GoResult string * Conn.
Variable Marshal : EventRequest → GoResult (list Byte.byte).

(** X17.  On a live handler the entry of a valid, serializable batch item
    reports what the broker answered to the one [Send] of its bytes, on the
    connection as the earlier items left it: status [sent] with the message
    id as returned, or status [error] with the broker's error text behind
    the prefix ["send error: "] and no message id.  Topic and byte count
    are filled in either way. *)
Theorem live_entry_reports_broker scope h corrID reqs i req payloadBytes w :
  h_DryRun h = false →
  reqs !! i = Some req →
  validateEventSchema req = None →
  Marshal req = Ok payloadBytes →
  let before := world (runBatch Send Marshal scope h corrID (take i reqs) w) in
  ∃ r, results (runBatch Send Marshal scope h corrID reqs w) !! i = Some r
    ∧ Index r = Z.of_nat i
    ∧ Topic r = resolveTopic h req
    ∧ Bytes r = Z.of_nat (length payloadBytes)
    ∧ match (Send (conn before) payloadBytes).1 with
      | Ok msgID => Status r = "sent" ∧ MessageID r = msgID ∧ Error r = ""
      | Err e => Status r = "error" ∧ MessageID r = ""
                 ∧ Error r = "send error: " +:+ e
      end.
Proof.
  intros Hd Hi Hv Hm before.
  pose proof (batchLoop_entry Send Marshal scope h corrID 0 reqs
                {| results := []; vars := loopEntry scope; world := w |}
                i req Hi) as He.
  simpl in He. unfold runBatch. rewrite He. eexists. split; [reflexivity|].
  fold (runBatch Send Marshal scope h corrID (take i reqs) w). fold before.
  unfold dispatchItem, callSend. rewrite Hv, Hm, Hd.
  by destruct (Send (conn before) payloadBytes) as [[msgID|e] c].
Qed.

(** X18.  What an error answer of [PostEvent] discloses.  A body that does
    not decode and an event that fails validation are reported with the
    decoder's, respectively the validator's, text in [details]; a failed
    send with the broker's text in [details]; a serialization failure with
    no [details] at all.  A success body is given only after validation
    and serialization, and on a live handler only after a successful
    [Send], whose message id it carries. *)
Theorem PostEvent_error_details h corrID bound w :
  match body (PostEvent Send Marshal h corrID bound w).1 with
  | BodyH fields =>
      match bound with
      | BindErr details =>
          fields !! "error" = Some "invalid request body"
          ∧ fields !! "details" = Some details
      | BindOk req =>
          match validateEventSchema req, Marshal req with
          | Some msg, _ =>
              fields !! "error" = Some "schema validation failed"
              ∧ fields !! "details" = Some msg
          | None, Err _ =>
              fields !! "error" = Some "internal serialization error"
              ∧ fields !! "details" = None
          | None, Ok payloadBytes =>
              h_DryRun h = false
              ∧ fields !! "error" = Some "failed sending to Pulsar"
              ∧ ∃ e, (Send (conn w) payloadBytes).1 = Err e
                     ∧ fields !! "details" = Some e
          end
      end
  | BodyEvent r =>
      ∃ req payloadBytes,
        bound = BindOk req ∧ validateEventSchema req = None
        ∧ Marshal req = Ok payloadBytes
        ∧ er_Topic r = resolveTopic h req
        ∧ er_Bytes r = Z.of_nat (length payloadBytes)
        ∧ (if h_DryRun h then er_MessageID r = ""
           else (Send (conn w) payloadBytes).1 = Ok (er_MessageID r))
  | BodyBatch _ => False
  end.
Proof.
  unfold PostEvent, errorDetailsH, errorH, callSend.
  destruct bound as [details|req]; simpl; [by simplify_map_eq|].
  destruct (validateEventSchema req) as [msg|] eqn:Hv; simpl;
    [by simplify_map_eq|].
  destruct (Marshal req) as [payloadBytes|e] eqn:Hm; simpl;
    [|by simplify_map_eq].
  destruct (h_DryRun h) eqn:Hd; simpl.
  { by exists req, payloadBytes. }
  destruct (Send (conn w) payloadBytes) as [[msgID|e] c] eqn:Hs; simpl.
  - exists req, payloadBytes. by rewrite Hs.
  - simplify_map_eq. repeat split; eauto.
Qed.

End FailureReports.

Lemma live_entry_reports_broker_witness :
  h_DryRun liveHandler = false
  ∧ [badWageEvent; sigEvent] !! 1%nat = Some sigEvent
  ∧ validateEventSchema sigEvent = None
  ∧ fakeMarshal sigEvent = Ok sigBytes
  ∧ ∃ r, results (runBatch flakySend fakeMarshal PerIteration liveHandler "c-1"
                    [badWageEvent; sigEvent] world0) !! 1%nat = Some r
      ∧ Status r = "error" ∧ Error r = "send error: connection closed".
Proof.
  assert (H1 : h_DryRun liveHandler = false) by reflexivity.
  assert (H2 : [badWageEvent; sigEvent] !! 1%nat = Some sigEvent) by reflexivity.
  assert (H3 : validateEventSchema sigEvent = None) by (vm_compute; reflexivity).
  assert (H4 : fakeMarshal sigEvent = Ok sigBytes) by (vm_compute; reflexivity).
  split; [exact H1|]. split; [exact H2|]. split; [exact H3|]. split; [exact H4|].
  destruct (live_entry_reports_broker flakySend fakeMarshal PerIteration
              liveHandler "c-1" [badWageEvent; sigEvent] 1 sigEvent sigBytes
              world0 H1 H2 H3 H4) as (r & Hr & _ & _ & _ & Hs).
  exists r. split; [exact Hr|].
  vm_compute in Hs. destruct Hs as (Hst & _ & Her). split; assumption.
Defined.

(** ** The echoed event, round trip *)

Section EchoedEvent.
Context {Conn : Type}.
Variable Send : Conn → list Byte.byte → GoResult string * Conn.
Variable Marshal : EventRequest → GoResult (list Byte.byte).
(** [json.Unmarshal] into an [EventRequest]. *)
Variable Unmarshal : list Byte.byte → GoResult EventRequest.
Variable scope : LoopVarScope.



End EchoedEvent.



